(** * A shallow embedding of the finance ledger ([finance_classes.py])

    The ledger keeps an ordered list of transactions against a fixed catalog
    of categories, derives a balance and per-category totals, and persists the
    list as a CSV file that it re-reads when a new store is constructed.

    Conventions of the embedding.
    - A Python [str] is a list of Unicode code points ([text]); literals are
      written in UTF-8 and decoded by [utf8].
    - The arithmetic of amounts ([+], [-], [0], [str], [float]) is an
      interface ([Amount]); laws that only exact arithmetic has are stated
      separately ([ExactArith]) and appear as hypotheses where they are used.
    - A Python [dict] is an association list in insertion order.
    - The file system is a dictionary from file names to contents, with a
      write medium that can refuse or run out of room, and a counter of the
      opens for writing.
    - [csv.writer], [csv.reader], [csv.DictReader] (dialect excel) and the
      universal-newlines reading of a text file are embedded character by
      character. *)

From Stdlib Require Import String Ascii.
From Stdlib Require Import List ZArith NArith Bool Lia Permutation.
Import ListNotations.
Local Open Scope list_scope.

(* ================================================================== *)
(** ** Text *)

Definition char := N.
Definition text := list char.

Definition COMMA : char := 44%N.
Definition QUOTE : char := 34%N.
Definition CR : char := 13%N.
Definition LF : char := 10%N.

Fixpoint text_eqb (s t : text) : bool :=
  match s, t with
  | [], [] => true
  | c :: s', d :: t' => N.eqb c d && text_eqb s' t'
  | _, _ => false
  end.

(** Equality of values that are a [str] or [None]. *)
Definition value_eqb (v w : option text) : bool :=
  match v, w with
  | Some s, Some t => text_eqb s t
  | None, None => true
  | _, _ => false
  end.

(** UTF-8 decoding of a literal: [pending] holds the bits read so far of a
    multi-byte character and [more] the number of continuation bytes due. *)
Fixpoint utf8_from (s : string) (pending : N) (more : nat) : text :=
  match s with
  | EmptyString => []
  | String a s' =>
      let b := N_of_ascii a in
      match more with
      | O =>
          if (b <? 128)%N then b :: utf8_from s' 0%N 0
          else if (b <? 224)%N then utf8_from s' (b - 192)%N 1
          else if (b <? 240)%N then utf8_from s' (b - 224)%N 2
          else utf8_from s' (b - 240)%N 3
      | S O => (pending * 64 + (b - 128))%N :: utf8_from s' 0%N 0
      | S k => utf8_from s' (pending * 64 + (b - 128))%N k
      end
  end.

Definition utf8 (s : string) : text := utf8_from s 0%N 0.

(* ================================================================== *)
(** ** Amounts *)

(** What the ledger asks of an amount: the additive operations used by
    [get_balance] and [get_category_summary], the text [csv.writer] writes for
    it ([str]) and the conversion [float] applied on loading ([None] where
    [float] raises [ValueError]).  [0 - 0 == 0] is the balance of an empty
    ledger. *)
Class Amount (A : Type) : Type := {
  amt_zero : A;
  amt_add : A -> A -> A;
  amt_sub : A -> A -> A;
  amt_str : A -> text;
  amt_float : text -> option A;
  amt_sub_zero_zero : amt_sub amt_zero amt_zero = amt_zero
}.

(** The laws of exact arithmetic (integers, rationals, reals).  Binary
    floating point does not satisfy [amt_add_assoc]. *)
Class ExactArith (A : Type) `{Amount A} : Prop := {
  amt_add_comm : forall x y : A, amt_add x y = amt_add y x;
  amt_add_assoc : forall x y z : A, amt_add x (amt_add y z) = amt_add (amt_add x y) z;
  amt_add_zero_l : forall x : A, amt_add amt_zero x = x;
  amt_sub_spec : forall x y z : A, amt_sub x y = z <-> x = amt_add z y
}.

(* ================================================================== *)
(** ** Domain model *)

Inductive TransactionType : Type := INCOME | EXPENSE.

Definition TransactionType_value (t : TransactionType) : text :=
  match t with
  | INCOME => utf8 "Доход"
  | EXPENSE => utf8 "Расход"
  end.

Definition TransactionType_eqb (a b : TransactionType) : bool :=
  match a, b with
  | INCOME, INCOME => true
  | EXPENSE, EXPENSE => true
  | _, _ => false
  end.

Record Category : Type := mkCategory {
  name : text;
  type : TransactionType
}.

(** [date] and [description] hold a [str]; after loading a short row they can
    hold [None], which is why they are optional here. *)
Record Transaction (A : Type) : Type := mkTransaction {
  amount : A;
  category : Category;
  date : option text;
  description : option text
}.
Arguments mkTransaction {A} _ _ _ _.
Arguments amount {A} _.
Arguments category {A} _.
Arguments date {A} _.
Arguments description {A} _.

Record FinanceManager (A : Type) : Type := mkFinanceManager {
  filename : text;
  transactions : list (Transaction A);
  categories : list Category
}.
Arguments mkFinanceManager {A} _ _ _.
Arguments filename {A} _.
Arguments transactions {A} _.
Arguments categories {A} _.

Definition set_transactions {A} (m : FinanceManager A) (txs : list (Transaction A))
  : FinanceManager A :=
  mkFinanceManager (filename m) txs (categories m).

(** The categories created by [__init__]. *)
Definition preset_categories : list Category :=
  [ mkCategory (utf8 "Зарплата") INCOME;
    mkCategory (utf8 "Инвестиции") INCOME;
    mkCategory (utf8 "Продукты") EXPENSE;
    mkCategory (utf8 "Транспорт") EXPENSE;
    mkCategory (utf8 "Развлечения") EXPENSE ].

Definition default_filename : text := utf8 "transactions.csv".

(* ================================================================== *)
(** ** Python dictionaries, in insertion order *)

Section Dict.
Context {V : Type}.

Definition dict := list (text * V).

Fixpoint dict_get (k : text) (d : dict) : option V :=
  match d with
  | [] => None
  | (k', v) :: d' => if text_eqb k' k then Some v else dict_get k d'
  end.

Definition dict_mem (k : text) (d : dict) : bool :=
  match dict_get k d with Some _ => true | None => false end.

(** [d[k] = v]: the value is replaced where the key stands, a new key goes
    to the end. *)
Fixpoint dict_set (k : text) (v : V) (d : dict) : dict :=
  match d with
  | [] => [(k, v)]
  | (k', v') :: d' =>
      if text_eqb k' k then (k', v) :: d' else (k', v') :: dict_set k v d'
  end.

Definition dict_keys (d : dict) : list text := map fst d.
Definition dict_values (d : dict) : list V := map snd d.
End Dict.
Arguments dict : clear implicits.

(* ================================================================== *)
(** ** Exceptions and the file system *)

Inductive exn : Type :=
| FileNotFoundError
| OSError
| ValueError
| TypeError
| IndexError
| KeyError (key : text)
| CsvError.

Inductive result (X : Type) : Type :=
| Ok (x : X)
| Raise (e : exn).
Arguments Ok {X} _.
Arguments Raise {X} _.

(** How the medium answers an [open(..., "w")] followed by writes:
    it takes everything, refuses the open, or has room for [room] characters. *)
Inductive medium : Type :=
| Writable
| Denied
| Full (room : nat).

Record disk : Type := mkDisk {
  files : dict text;
  media : medium;
  opens_for_write : nat
}.

(** [open(filename, "w")], the writes of [data], and the close. *)
Definition write_file (fname : text) (data : text) (d : disk) : disk * result unit :=
  match media d with
  | Writable =>
      (mkDisk (dict_set fname data (files d)) Writable (S (opens_for_write d)), Ok tt)
  | Denied =>
      (mkDisk (files d) Denied (S (opens_for_write d)), Raise OSError)
  | Full room =>
      if Nat.leb (length data) room
      then (mkDisk (dict_set fname data (files d)) (Full room) (S (opens_for_write d)), Ok tt)
      else (mkDisk (dict_set fname (firstn room data) (files d)) (Full room)
                   (S (opens_for_write d)), Raise OSError)
  end.

(** [open(filename, "r")]: the decoded contents, or [FileNotFoundError]. *)
Definition read_file (fname : text) (d : disk) : result text :=
  match dict_get fname (files d) with
  | Some content => Ok content
  | None => Raise FileNotFoundError
  end.

(* ================================================================== *)
(** ** [csv.writer], dialect excel

    Delimiter comma, double-quote as the quote character, minimal quoting
    with doubled quotes, line terminator CR LF, no escape character. *)

(** A field is quoted when it holds the delimiter, the quote character or a
    character of the line terminator. *)
Definition special (c : char) : bool :=
  N.eqb c COMMA || N.eqb c QUOTE || N.eqb c CR || N.eqb c LF.

Definition needs_quotes (s : text) : bool := existsb special s.

Fixpoint double_quotes (s : text) : text :=
  match s with
  | [] => []
  | c :: r => if N.eqb c QUOTE then QUOTE :: QUOTE :: double_quotes r
              else c :: double_quotes r
  end.

Definition join_append (s : text) : text :=
  if needs_quotes s then QUOTE :: double_quotes s ++ [QUOTE] else s.

Fixpoint join_fields (fs : list text) : text :=
  match fs with
  | [] => []
  | [f] => join_append f
  | f :: r => join_append f ++ COMMA :: join_fields r
  end.

(** A record of one empty field is written as a pair of quotes. *)
Definition writerow (fs : list text) : text :=
  match fs, join_fields fs with
  | _ :: _, [] => [QUOTE; QUOTE; CR; LF]
  | _, rec => rec ++ [CR; LF]
  end.

(** [None] is written as the empty field. *)
Definition field_text (v : option text) : text :=
  match v with
  | Some s => s
  | None => []
  end.

(* ================================================================== *)
(** ** Reading a text file opened without the [newline] argument

    Universal newlines: CR LF and a lone CR are handed to the program as LF,
    and the file is iterated line by line, each line keeping its LF. *)

Fixpoint universal_newlines (s : text) : text :=
  match s with
  | [] => []
  | c :: r =>
      if N.eqb c CR then
        match r with
        | c' :: r' => if N.eqb c' LF then LF :: universal_newlines r'
                      else LF :: universal_newlines r
        | [] => [LF]
        end
      else c :: universal_newlines r
  end.

Fixpoint split_lines (s : text) : list text :=
  match s with
  | [] => []
  | c :: r =>
      if N.eqb c LF then [LF] :: split_lines r
      else match split_lines r with
           | [] => [[c]]
           | l :: ls => (c :: l) :: ls
           end
  end.

Definition file_lines (content : text) : list text :=
  split_lines (universal_newlines content).

(* ================================================================== *)
(** ** [csv.reader], dialect excel

    The states the excel dialect can reach (it has no escape character). *)

Inductive pstate : Type :=
| START_RECORD
| START_FIELD
| IN_FIELD
| IN_QUOTED_FIELD
| QUOTE_IN_QUOTED_FIELD
| EAT_CRNL.

Record parser : Type := mkParser {
  state : pstate;
  field : text;
  fields : list text
}.

(** A character of the line, or the end-of-line mark fed after each line. *)
Inductive input : Type :=
| Ch (c : char)
| EOL.

Definition field_limit : N := 131072%N.

Definition parse_reset : parser := mkParser START_RECORD [] [].

Definition set_state (s : pstate) (p : parser) : parser :=
  mkParser s (field p) (fields p).

Definition parse_add_char (p : parser) (c : char) : result parser :=
  if (field_limit <=? N.of_nat (length (field p)))%N then Raise CsvError
  else Ok (mkParser (state p) (field p ++ [c]) (fields p)).

Definition parse_save_field (p : parser) : parser :=
  mkParser (state p) [] (fields p ++ [field p]).

Definition is_newline (c : char) : bool := N.eqb c LF || N.eqb c CR.

Definition after_newline (i : input) : pstate :=
  match i with
  | EOL => START_RECORD
  | Ch _ => EAT_CRNL
  end.

Definition ends_line (i : input) : bool :=
  match i with
  | EOL => true
  | Ch c => is_newline c
  end.

Definition map_result {X Y} (f : X -> Y) (r : result X) : result Y :=
  match r with
  | Ok x => Ok (f x)
  | Raise e => Raise e
  end.

(** The case [START_FIELD], which [START_RECORD] falls through to. *)
Definition start_field (p : parser) (i : input) : result parser :=
  if ends_line i then Ok (set_state (after_newline i) (parse_save_field p))
  else match i with
       | EOL => Ok p
       | Ch c =>
           if N.eqb c QUOTE then Ok (set_state IN_QUOTED_FIELD p)
           else if N.eqb c COMMA then Ok (parse_save_field p)
           else map_result (set_state IN_FIELD) (parse_add_char p c)
       end.

Definition parse_process_char (p : parser) (i : input) : result parser :=
  match state p with
  | START_RECORD =>
      match i with
      | EOL => Ok p
      | Ch c => if is_newline c then Ok (set_state EAT_CRNL p)
                else start_field (set_state START_FIELD p) i
      end
  | START_FIELD => start_field p i
  | IN_FIELD =>
      if ends_line i then Ok (set_state (after_newline i) (parse_save_field p))
      else match i with
           | EOL => Ok p
           | Ch c =>
               if N.eqb c COMMA then Ok (set_state START_FIELD (parse_save_field p))
               else parse_add_char p c
           end
  | IN_QUOTED_FIELD =>
      match i with
      | EOL => Ok p
      | Ch c => if N.eqb c QUOTE then Ok (set_state QUOTE_IN_QUOTED_FIELD p)
                else parse_add_char p c
      end
  | QUOTE_IN_QUOTED_FIELD =>
      match i with
      | EOL => Ok (set_state START_RECORD (parse_save_field p))
      | Ch c =>
          if N.eqb c QUOTE then map_result (set_state IN_QUOTED_FIELD) (parse_add_char p c)
          else if N.eqb c COMMA then Ok (set_state START_FIELD (parse_save_field p))
          else if is_newline c then Ok (set_state EAT_CRNL (parse_save_field p))
          else map_result (set_state IN_FIELD) (parse_add_char p c)
      end
  | EAT_CRNL =>
      match i with
      | EOL => Ok (set_state START_RECORD p)
      | Ch c => if is_newline c then Ok p else Raise CsvError
      end
  end.

Fixpoint feed_line (p : parser) (line : text) : result parser :=
  match line with
  | [] => parse_process_char p EOL
  | c :: r =>
      match parse_process_char p (Ch c) with
      | Ok p' => feed_line p' r
      | Raise e => Raise e
      end
  end.

Definition pstate_eqb (a b : pstate) : bool :=
  match a, b with
  | START_RECORD, START_RECORD | START_FIELD, START_FIELD | IN_FIELD, IN_FIELD
  | IN_QUOTED_FIELD, IN_QUOTED_FIELD
  | QUOTE_IN_QUOTED_FIELD, QUOTE_IN_QUOTED_FIELD | EAT_CRNL, EAT_CRNL => true
  | _, _ => false
  end.

(** The records the reader yields, in order, and the error that ended the
    iteration if one did.  Lines are fed until the state is back at
    [START_RECORD]; at the end of the input an open record is yielded when
    its last field is not empty or is still inside quotes. *)
Fixpoint reader_records (p : parser) (lines : list text) : list (list text) * option exn :=
  match lines with
  | [] =>
      match field p, pstate_eqb (state p) IN_QUOTED_FIELD with
      | [], false => ([], None)
      | _, _ => ([fields (parse_save_field p)], None)
      end
  | line :: rest =>
      match feed_line p line with
      | Raise e => ([], Some e)
      | Ok p' =>
          if pstate_eqb (state p') START_RECORD
          then let (recs, e) := reader_records parse_reset rest in (fields p' :: recs, e)
          else reader_records p' rest
      end
  end.

Definition csv_reader (lines : list text) : list (list text) * option exn :=
  reader_records parse_reset lines.

(* ================================================================== *)
(** ** [csv.DictReader]

    The first record gives the field names.  Blank records are passed over;
    a short record is completed with [None]; the surplus of a long record is
    kept under the key [None], which this program never reads and the
    embedding leaves out. *)

Definition row := dict (option text).

Fixpoint make_row (fieldnames : list text) (record : list text) (d : row) : row :=
  match fieldnames, record with
  | k :: ks, v :: vs => make_row ks vs (dict_set k (Some v) d)
  | k :: ks, [] => make_row ks [] (dict_set k None d)
  | [], _ => d
  end.

Definition is_blank (record : list text) : bool :=
  match record with
  | [] => true
  | _ :: _ => false
  end.

Definition dict_reader (records : list (list text) * option exn) : list row * option exn :=
  match records with
  | ([], e) => ([], e)
  | (fieldnames :: data, e) =>
      (map (fun r => make_row fieldnames r []) (filter (fun r => negb (is_blank r)) data), e)
  end.

(* ================================================================== *)
(** ** The ledger store ([FinanceManager]) *)

(** [del lst[index]]: a negative index counts from the end; out of range
    is [IndexError] ([None]). *)
Definition list_del {X} (index : Z) (l : list X) : option (list X) :=
  let n := Z.of_nat (length l) in
  let i := if (index <? 0)%Z then (index + n)%Z else index in
  if ((0 <=? i) && (i <? n))%Z
  then Some (firstn (Z.to_nat i) l ++ skipn (S (Z.to_nat i)) l)
  else None.

Definition csv_header : list text :=
  [utf8 "Amount"; utf8 "Category"; utf8 "Type"; utf8 "Date"; utf8 "Description"].

Section Store.
Context {A : Type} `{Amount A}.

(** The built-in [sum]: a running total that starts from [0]. *)
Definition py_sum (l : list A) : A := fold_left amt_add l amt_zero.

(** [sum(t.amount for t in transactions if t.category.type == ty)]: the
    generator's items are added to the running total as they come. *)
Fixpoint sum_amounts_of_type (ty : TransactionType) (txs : list (Transaction A))
         (total : A) : A :=
  match txs with
  | [] => total
  | t :: rest =>
      if TransactionType_eqb (type (category t)) ty
      then sum_amounts_of_type ty rest (amt_add total (amount t))
      else sum_amounts_of_type ty rest total
  end.

Definition get_balance (m : FinanceManager A) : A :=
  let income := sum_amounts_of_type INCOME (transactions m) amt_zero in
  let expenses := sum_amounts_of_type EXPENSE (transactions m) amt_zero in
  amt_sub income expenses.

(** One turn of the loop of [get_category_summary]. *)
Definition summary_step (summary : dict A) (transaction : Transaction A) : dict A :=
  let cat_name := name (category transaction) in
  let summary :=
    if dict_mem cat_name summary then summary else dict_set cat_name amt_zero summary in
  match dict_get cat_name summary with
  | Some v =>
      if TransactionType_eqb (type (category transaction)) INCOME
      then dict_set cat_name (amt_add v (amount transaction)) summary
      else dict_set cat_name (amt_sub v (amount transaction)) summary
  | None => summary
  end.

Definition get_category_summary (m : FinanceManager A) : dict A :=
  fold_left summary_step (transactions m) [].

(** The record [csv.writer] is given for a transaction. *)
Definition csv_record (t : Transaction A) : list text :=
  [ amt_str (amount t);
    name (category t);
    TransactionType_value (type (category t));
    field_text (date t);
    field_text (description t) ].

Definition csv_text (txs : list (Transaction A)) : text :=
  writerow csv_header ++ concat (map (fun t => writerow (csv_record t)) txs).

Definition save_to_file (m : FinanceManager A) (d : disk) : disk * result unit :=
  write_file (filename m) (csv_text (transactions m)) d.

(** [next((cat for cat in categories if cat.name == row["Category"]), None)]:
    the subscript is evaluated at each category tried. *)
Fixpoint next_category (cats : list Category) (r : row) : result (option Category) :=
  match cats with
  | [] => Ok None
  | cat :: rest =>
      match dict_get (utf8 "Category") r with
      | None => Raise (KeyError (utf8 "Category"))
      | Some v => if value_eqb (Some (name cat)) v then Ok (Some cat)
                  else next_category rest r
      end
  end.

(** The body of the loop of [load_from_file] for one row: the transaction to
    append, if any. *)
Definition load_row (cats : list Category) (r : row) : result (option (Transaction A)) :=
  match next_category cats r with
  | Raise e => Raise e
  | Ok None => Ok None
  | Ok (Some cat) =>
      match dict_get (utf8 "Amount") r with
      | None => Raise (KeyError (utf8 "Amount"))
      | Some None => Raise TypeError
      | Some (Some s) =>
          match amt_float s with
          | None => Raise ValueError
          | Some a =>
              match dict_get (utf8 "Date") r with
              | None => Raise (KeyError (utf8 "Date"))
              | Some dt =>
                  let descr :=
                    match dict_get (utf8 "Description") r with
                    | Some v => v
                    | None => Some []
                    end in
                  Ok (Some (mkTransaction a cat dt descr))
              end
          end
      end
  end.

(** The loop over the rows: transactions appended so far stay when a row
    raises. *)
Fixpoint load_rows (cats : list Category) (rows : list row) (txs : list (Transaction A))
  : list (Transaction A) * option exn :=
  match rows with
  | [] => (txs, None)
  | r :: rest =>
      match load_row cats r with
      | Raise e => (txs, Some e)
      | Ok None => load_rows cats rest txs
      | Ok (Some t) => load_rows cats rest (txs ++ [t])
      end
  end.

Definition load_from_file (m : FinanceManager A) (d : disk) : FinanceManager A * result unit :=
  match read_file (filename m) d with
  | Raise FileNotFoundError => (set_transactions m [], Ok tt)
  | Raise e => (m, Raise e)
  | Ok content =>
      let (rows, reader_error) := dict_reader (csv_reader (file_lines content)) in
      let (txs, row_error) := load_rows (categories m) rows (transactions m) in
      (set_transactions m txs,
       match row_error, reader_error with
       | Some e, _ => Raise e
       | None, Some e => Raise e
       | None, None => Ok tt
       end)
  end.

(** [FinanceManager(filename)]: no store is constructed when loading raises. *)
Definition new_manager (fname : text) (d : disk) : result (FinanceManager A) :=
  match load_from_file (mkFinanceManager fname [] preset_categories) d with
  | (m, Ok _) => Ok m
  | (_, Raise e) => Raise e
  end.

Definition add_transaction (transaction : Transaction A) (m : FinanceManager A) (d : disk)
  : FinanceManager A * disk * result unit :=
  let m' := set_transactions m (transactions m ++ [transaction]) in
  let (d', r) := save_to_file m' d in
  (m', d', r).

Definition delete_transaction (index : Z) (m : FinanceManager A) (d : disk)
  : FinanceManager A * disk * result unit :=
  if ((0 <=? index) && (index <? Z.of_nat (length (transactions m))))%Z
  then match list_del index (transactions m) with
       | None => (m, d, Raise IndexError)
       | Some txs =>
           let m' := set_transactions m txs in
           let (d', r) := save_to_file m' d in
           (m', d', r)
       end
  else (m, d, Ok tt).

End Store.

(* ================================================================== *)
(** ** Integer amounts

    Amounts that are Python integers: the arithmetic is exact, [str] writes
    the decimal digits, and [float] is taken on the texts made of an optional
    minus sign and decimal digits (of what Python's [float] accepts, the part
    that denotes integers in this plain form). *)

Fixpoint digits_value (s : text) (acc : Z) : option Z :=
  match s with
  | [] => Some acc
  | c :: r =>
      if ((48 <=? c) && (c <=? 57))%N
      then digits_value r (10 * acc + Z.of_N (c - 48))%Z
      else None
  end.

Definition Z_float (s : text) : option Z :=
  match s with
  | [] => None
  | c :: r =>
      if N.eqb c 45 then
        match r with
        | [] => None
        | _ :: _ => option_map Z.opp (digits_value r 0%Z)
        end
      else digits_value s 0%Z
  end.

Fixpoint uint_text (u : Decimal.uint) : text :=
  match u with
  | Decimal.Nil => []
  | Decimal.D0 r => 48%N :: uint_text r
  | Decimal.D1 r => 49%N :: uint_text r
  | Decimal.D2 r => 50%N :: uint_text r
  | Decimal.D3 r => 51%N :: uint_text r
  | Decimal.D4 r => 52%N :: uint_text r
  | Decimal.D5 r => 53%N :: uint_text r
  | Decimal.D6 r => 54%N :: uint_text r
  | Decimal.D7 r => 55%N :: uint_text r
  | Decimal.D8 r => 56%N :: uint_text r
  | Decimal.D9 r => 57%N :: uint_text r
  end.

Definition Z_str (z : Z) : text :=
  match Z.to_int z with
  | Decimal.Pos u => uint_text u
  | Decimal.Neg u => 45%N :: uint_text u
  end.

#[export] Instance Z_Amount : Amount Z := {
  amt_zero := 0%Z;
  amt_add := Z.add;
  amt_sub := Z.sub;
  amt_str := Z_str;
  amt_float := Z_float;
  amt_sub_zero_zero := eq_refl
}.

#[export] Instance Z_ExactArith : ExactArith Z.
Proof.
  constructor; simpl; intros; lia.
Qed.

(* ================================================================== *)
(** ** The reader, seen from the characters of the file *)

(** The reader run over the characters of a text, the end-of-line mark
    being fed after each LF: what [reader_records] does on the lines of a
    text that ends with LF. *)
Fixpoint scan (p : parser) (s : text) : list (list text) * option exn :=
  match s with
  | [] => reader_records p []
  | c :: r =>
      match parse_process_char p (Ch c) with
      | Raise e => ([], Some e)
      | Ok p1 =>
          if N.eqb c LF then
            match parse_process_char p1 EOL with
            | Raise e => ([], Some e)
            | Ok p2 =>
                if pstate_eqb (state p2) START_RECORD
                then let (recs, e) := scan parse_reset r in (fields p2 :: recs, e)
                else scan p2 r
            end
          else scan p1 r
      end
  end.

(** Texts made of whole lines: LF-free stretches, each closed by LF. *)
Inductive whole_lines : text -> Prop :=
| whole_lines_nil : whole_lines []
| whole_lines_cons : forall l rest,
    ~ In LF l -> whole_lines rest -> whole_lines (l ++ LF :: rest).

(** A field the reader takes whole: within the field size limit. *)
Definition fits (s : text) : bool := (N.of_nat (length s) <=? field_limit)%N.

Definition cr_free (s : text) : bool := forallb (fun c => negb (N.eqb c CR)) s.

(** A text that comes back as it was written: no CR, within the field limit. *)
Definition plain (s : text) : bool := cr_free s && fits s.

(** The states in which the reader expects a field. *)
Definition expects_field (st : pstate) : Prop := st = START_RECORD \/ st = START_FIELD.

(** The text of the records as the reader is handed it. *)
Definition as_read (records : list (list text)) : text :=
  concat (map (fun fs => join_fields fs ++ [LF]) records).

(** Records of two fields or more, free of CR, within the field limit. *)
Definition readable (fs : list text) : bool :=
  (2 <=? length fs) && forallb cr_free fs && forallb fits fs.

(* ================================================================== *)
(** ** The queries as the specification words them *)

Section Specification.
Context {A : Type} `{Amount A}.

(** The amounts of the transactions whose category has type [ty], in
    ledger order. *)
Definition amounts_of_type (ty : TransactionType) (txs : list (Transaction A)) : list A :=
  map amount (filter (fun t => TransactionType_eqb (type (category t)) ty) txs).

(** Sum of the income amounts minus sum of the expense amounts. *)
Definition balance_spec (txs : list (Transaction A)) : A :=
  amt_sub (py_sum (amounts_of_type INCOME txs)) (py_sum (amounts_of_type EXPENSE txs)).

(** The transactions of the category named [n], in ledger order. *)
Definition of_category (n : text) (txs : list (Transaction A)) : list (Transaction A) :=
  filter (fun t => text_eqb (name (category t)) n) txs.

(** Signed sum: an amount is added when its category is an income and
    subtracted when it is an expense. *)
Definition signed_step (total : A) (t : Transaction A) : A :=
  match type (category t) with
  | INCOME => amt_add total (amount t)
  | EXPENSE => amt_sub total (amount t)
  end.

Definition signed_sum (txs : list (Transaction A)) : A :=
  fold_left signed_step txs amt_zero.

(** The entry of the summary for the name [n]: absent when the category has
    no transaction. *)
Definition summary_spec (n : text) (txs : list (Transaction A)) : option A :=
  match of_category n txs with
  | [] => None
  | l => Some (signed_sum l)
  end.

(** The transactions that a save followed by a load gives back: the category
    is one of the catalog, the text written for the amount converts back to
    the amount, and the date and the description are texts; the three texts
    are plain. *)
Definition storable (t : Transaction A) : Prop :=
  In (category t) preset_categories
  /\ amt_float (amt_str (amount t)) = Some (amount t)
  /\ plain (amt_str (amount t)) = true
  /\ (exists s, date t = Some s /\ plain s = true)
  /\ (exists s, description t = Some s /\ plain s = true).

End Specification.

(** The catalog as the specification names it. *)
Definition catalog_in_english : list Category :=
  [ mkCategory (utf8 "Salary") INCOME;
    mkCategory (utf8 "Investments") INCOME;
    mkCategory (utf8 "Groceries") EXPENSE;
    mkCategory (utf8 "Transport") EXPENSE;
    mkCategory (utf8 "Entertainment") EXPENSE ].

(* ================================================================== *)
(** ** Sample ledgers, on integer amounts *)

Definition salary : Category := mkCategory (utf8 "Зарплата") INCOME.
Definition groceries : Category := mkCategory (utf8 "Продукты") EXPENSE.

Definition empty_disk : disk := mkDisk [] Writable 0.
Definition locked_disk : disk := mkDisk [] Denied 0.

Definition sample_income : Transaction Z :=
  mkTransaction 30000%Z salary (Some (utf8 "2024-01-05")) (Some []).

Definition sample_expense : Transaction Z :=
  mkTransaction 5000%Z groceries (Some (utf8 "2024-01-06")) (Some (utf8 "milk")).

Definition sample_manager : FinanceManager Z :=
  mkFinanceManager default_filename [sample_income; sample_expense] preset_categories.

Definition sample_manager_reordered : FinanceManager Z :=
  mkFinanceManager default_filename [sample_expense; sample_income] preset_categories.

(** A file line: the text and the CR LF that [csv.writer] ends a record with. *)
Definition line (s : string) : text := utf8 s ++ [CR; LF].

Definition disk_with (content : text) : disk :=
  mkDisk [(default_filename, content)] Writable 0.

(** A file whose second data row has an amount that is not a number. *)
Definition file_with_bad_amount : text :=
  line "Amount,Category,Type,Date,Description"
  ++ line "100,Зарплата,Доход,2024-01-05,first"
  ++ line "abc,Зарплата,Доход,2024-01-06,second"
  ++ line "200,Зарплата,Доход,2024-01-07,third".

(** A file whose second data row names a category outside the catalog. *)
Definition file_with_unknown_category : text :=
  line "Amount,Category,Type,Date,Description"
  ++ line "100,Зарплата,Доход,2024-01-05,first"
  ++ line "abc,Salary,Доход,2024-01-06,second"
  ++ line "200,Продукты,Расход,2024-01-07,third".

(** A file whose data row stops after the date. *)
Definition file_with_short_row : text :=
  line "Amount,Category,Type,Date,Description"
  ++ line "100,Зарплата,Доход,2024-01-05".

(** A file without a Description column. *)
Definition file_without_description_column : text :=
  line "Amount,Category,Type,Date"
  ++ line "100,Зарплата,Доход,2024-01-05".

(** A file whose Type column contradicts the catalog. *)
Definition file_with_wrong_type : text :=
  line "Amount,Category,Type,Date,Description"
  ++ line "100,Зарплата,Расход,2024-01-05,pay".

(** A transaction whose description holds a comma, quotes and a line feed. *)
Definition transaction_with_quotes : Transaction Z :=
  mkTransaction 7%Z groceries (Some (utf8 "2024-01-06"))
    (Some (utf8 "tea, " ++ [QUOTE] ++ utf8 "green" ++ [QUOTE; LF] ++ utf8 "and milk")).

Definition quoting_manager : FinanceManager Z :=
  mkFinanceManager default_filename
    [sample_income; transaction_with_quotes; sample_expense] preset_categories.

(** A transaction whose description holds a carriage return, and the same
    with a line feed in its place. *)
Definition transaction_with_cr : Transaction Z :=
  mkTransaction 100%Z salary (Some (utf8 "2024-01-05")) (Some (utf8 "a" ++ [CR] ++ utf8 "b")).

Definition transaction_with_lf : Transaction Z :=
  mkTransaction 100%Z salary (Some (utf8 "2024-01-05")) (Some (utf8 "a" ++ [LF] ++ utf8 "b")).

(* ================================================================== *)
(** * Properties *)

(** ** Text and dictionaries *)

Lemma text_eqb_eq : forall s t, text_eqb s t = true <-> s = t.
Proof.
  induction s as [|c s IH]; destruct t as [|d t]; simpl; split; intro E;
    try reflexivity; try discriminate.
  - apply andb_true_iff in E. destruct E as [E1 E2].
    apply N.eqb_eq in E1. apply IH in E2. congruence.
  - injection E as -> ->. rewrite N.eqb_refl. simpl. now apply IH.
Qed.

Lemma text_eqb_refl : forall s, text_eqb s s = true.
Proof. intro s. now apply text_eqb_eq. Qed.

Lemma text_eqb_neq : forall s t, text_eqb s t = false <-> s <> t.
Proof.
  intros s t. split.
  - intros E F. apply text_eqb_eq in F. congruence.
  - intro N. destruct (text_eqb s t) eqn:E; [|reflexivity].
    apply text_eqb_eq in E. contradiction.
Qed.

Lemma dict_get_set_same : forall {V} k (v : V) d, dict_get k (dict_set k v d) = Some v.
Proof.
  intros V k v d. induction d as [|[k0 v0] d IH]; simpl.
  - now rewrite text_eqb_refl.
  - destruct (text_eqb k0 k) eqn:E; simpl; rewrite E; [reflexivity | exact IH].
Qed.

Lemma dict_get_set_other : forall {V} k k' (v : V) d,
  k <> k' -> dict_get k' (dict_set k v d) = dict_get k' d.
Proof.
  intros V k k' v d N. induction d as [|[k0 v0] d IH]; simpl.
  - apply text_eqb_neq in N. now rewrite N.
  - destruct (text_eqb k0 k) eqn:E; simpl.
    + apply text_eqb_eq in E. subst k0.
      apply text_eqb_neq in N. now rewrite N.
    + destruct (text_eqb k0 k'); [reflexivity | exact IH].
Qed.

(** ** Balance *)

Section BalanceFacts.
Context {A : Type} `{Amount A}.

Lemma sum_amounts_of_type_fold : forall ty (txs : list (Transaction A)) total,
  sum_amounts_of_type ty txs total = fold_left amt_add (amounts_of_type ty txs) total.
Proof.
  intros ty txs. unfold amounts_of_type.
  induction txs as [|t txs IH]; intro total; simpl.
  - reflexivity.
  - destruct (TransactionType_eqb (type (category t)) ty); simpl; apply IH.
Qed.

Lemma get_balance_spec : forall m : FinanceManager A,
  get_balance m = balance_spec (transactions m).
Proof.
  intro m. unfold get_balance, balance_spec, py_sum.
  now rewrite !sum_amounts_of_type_fold.
Qed.

Lemma amounts_of_type_perm : forall ty (l l' : list (Transaction A)),
  Permutation l l' -> Permutation (amounts_of_type ty l) (amounts_of_type ty l').
Proof.
  intros ty l l' P. unfold amounts_of_type.
  apply Permutation_map. induction P; simpl.
  - constructor.
  - destruct (TransactionType_eqb (type (category x)) ty); auto.
  - destruct (TransactionType_eqb (type (category x)) ty),
             (TransactionType_eqb (type (category y)) ty); auto using perm_swap.
  - etransitivity; eassumption.
Qed.

End BalanceFacts.

(** ** Exact arithmetic *)

Section ExactFacts.
Context {A : Type} `{ExactArith A}.

Lemma amt_add_zero_r : forall x : A, amt_add x amt_zero = x.
Proof. intro x. rewrite amt_add_comm. apply amt_add_zero_l. Qed.

Lemma amt_add_swap : forall x y z : A,
  amt_add (amt_add x y) z = amt_add (amt_add x z) y.
Proof.
  intros x y z.
  rewrite <- !amt_add_assoc. f_equal. apply amt_add_comm.
Qed.

Lemma amt_sub_add : forall x y : A, amt_add (amt_sub x y) y = x.
Proof. intros x y. symmetry. now apply amt_sub_spec. Qed.

Lemma amt_add_sub : forall x y : A, amt_sub (amt_add x y) y = x.
Proof. intros x y. now apply amt_sub_spec. Qed.

Lemma amt_add_cancel_r : forall x y z : A, amt_add x z = amt_add y z -> x = y.
Proof.
  intros x y z E.
  rewrite <- (amt_add_sub x z), <- (amt_add_sub y z). now rewrite E.
Qed.

Lemma fold_add_perm : forall l l' : list A,
  Permutation l l' -> forall z, fold_left amt_add l z = fold_left amt_add l' z.
Proof.
  induction 1 as [|x l l' P IH|x y l|l l' l'' P1 IH1 P2 IH2]; intro z; simpl.
  - reflexivity.
  - apply IH.
  - now rewrite amt_add_swap.
  - now rewrite IH1.
Qed.

Lemma fold_add_shift : forall (l : list A) z x,
  fold_left amt_add l (amt_add z x) = amt_add (fold_left amt_add l z) x.
Proof.
  induction l as [|y l IH]; intros z x; simpl.
  - reflexivity.
  - now rewrite amt_add_swap, IH.
Qed.

Lemma py_sum_cons : forall (x : A) l, py_sum (x :: l) = amt_add (py_sum l) x.
Proof.
  intros x l. unfold py_sum. simpl.
  now rewrite amt_add_zero_l, <- fold_add_shift, amt_add_zero_l.
Qed.

(** The sum of the values after an assignment to a key that is present. *)
Lemma sum_values_set_present : forall k (v v' : A) d,
  dict_get k d = Some v ->
  amt_add (py_sum (dict_values (dict_set k v' d))) v = amt_add (py_sum (dict_values d)) v'.
Proof.
  intros k v v' d. unfold dict_values.
  induction d as [|[k0 v0] d IH]; simpl; intro G.
  - discriminate.
  - destruct (text_eqb k0 k) eqn:E; simpl.
    + injection G as ->. rewrite !py_sum_cons. apply amt_add_swap.
    + rewrite !py_sum_cons.
      rewrite amt_add_swap, (IH G). apply amt_add_swap.
Qed.

Lemma sum_values_set_absent : forall k (v : A) d,
  dict_get k d = None ->
  py_sum (dict_values (dict_set k v d)) = amt_add (py_sum (dict_values d)) v.
Proof.
  intros k v d. unfold dict_values.
  induction d as [|[k0 v0] d IH]; simpl; intro G.
  - now rewrite py_sum_cons.
  - destruct (text_eqb k0 k) eqn:E; [discriminate|]. simpl.
    rewrite !py_sum_cons, (IH G). apply amt_add_swap.
Qed.

Lemma sum_values_signed : forall k (v : A) d (t : Transaction A),
  dict_get k d = Some v ->
  py_sum (dict_values (dict_set k (signed_step v t) d)) = signed_step (py_sum (dict_values d)) t.
Proof.
  intros k v d t G. unfold signed_step.
  pose proof (sum_values_set_present k v) as P.
  destruct (type (category t)).
  - apply (amt_add_cancel_r _ _ v).
    rewrite (P _ _ G). rewrite amt_add_assoc. apply amt_add_swap.
  - symmetry. apply amt_sub_spec. apply (amt_add_cancel_r _ _ (amt_sub v (amount t))).
    rewrite <- (P _ _ G).
    rewrite <- amt_add_assoc. f_equal.
    rewrite amt_add_comm. symmetry. apply amt_sub_add.
Qed.

Lemma summary_step_signed : forall (summary : dict A) (t : Transaction A),
  summary_step summary t =
  let k := name (category t) in
  match dict_get k summary with
  | Some v => dict_set k (signed_step v t) summary
  | None => dict_set k (signed_step amt_zero t) (dict_set k amt_zero summary)
  end.
Proof.
  intros summary t. unfold summary_step, dict_mem, signed_step. simpl.
  destruct (dict_get (name (category t)) summary) eqn:G.
  - rewrite G. now destruct (type (category t)).
  - rewrite dict_get_set_same. now destruct (type (category t)).
Qed.

Lemma sum_values_step : forall (summary : dict A) (t : Transaction A),
  py_sum (dict_values (summary_step summary t)) = signed_step (py_sum (dict_values summary)) t.
Proof.
  intros summary t. rewrite summary_step_signed. simpl.
  destruct (dict_get (name (category t)) summary) eqn:G.
  - now apply sum_values_signed.
  - rewrite (sum_values_signed _ amt_zero) by apply dict_get_set_same.
    now rewrite (sum_values_set_absent _ _ _ G), amt_add_zero_r.
Qed.

Lemma sum_values_fold : forall (txs : list (Transaction A)) (summary : dict A),
  py_sum (dict_values (fold_left summary_step txs summary)) =
  fold_left signed_step txs (py_sum (dict_values summary)).
Proof.
  induction txs as [|t txs IH]; intro summary; simpl.
  - reflexivity.
  - now rewrite IH, sum_values_step.
Qed.

(** The running signed total is the income total minus the expense total. *)
Lemma signed_fold_balance : forall (txs : list (Transaction A)) (s i e : A),
  amt_add s e = i ->
  amt_add (fold_left signed_step txs s) (sum_amounts_of_type EXPENSE txs e)
  = sum_amounts_of_type INCOME txs i.
Proof.
  induction txs as [|t txs IH]; intros s i e E; simpl.
  - exact E.
  - unfold signed_step at 2. destruct (type (category t)); simpl; apply IH.
    + rewrite amt_add_swap. now rewrite E.
    + rewrite amt_add_assoc, amt_add_swap, amt_sub_add. exact E.
Qed.

End ExactFacts.

(** ** Lists, files and saving *)

Lemma split_at_index : forall {X} (n : nat) (l : list X),
  n < length l -> exists x, l = firstn n l ++ x :: skipn (S n) l.
Proof.
  intros X n. induction n as [|n IH]; intros [|y l] L; simpl in *; try lia.
  - now exists y.
  - destruct (IH l) as [x E]; [lia|]. exists x. now rewrite <- E.
Qed.

Lemma firstn_length_app : forall {X} (l r : list X), firstn (length l) (l ++ r) = l.
Proof.
  intros X l r. induction l as [|y l IH]; simpl.
  - now destruct r.
  - now rewrite IH.
Qed.

Lemma skipn_past_app : forall {X} (l r : list X) (x : X),
  skipn (S (length l)) (l ++ x :: r) = r.
Proof.
  intros X l r x. induction l as [|y l IH]; simpl.
  - reflexivity.
  - exact IH.
Qed.

Lemma list_del_in_range : forall {X} (before after : list X) (x : X),
  list_del (Z.of_nat (length before)) (before ++ x :: after) = Some (before ++ after).
Proof.
  intros X before after x. unfold list_del.
  assert (L : length (before ++ x :: after) = length before + S (length after))
    by (rewrite length_app; reflexivity).
  rewrite L.
  destruct (Z.ltb_spec (Z.of_nat (length before)) 0); [lia|].
  destruct (Z.leb_spec 0 (Z.of_nat (length before))); [|lia].
  destruct (Z.ltb_spec (Z.of_nat (length before))
                       (Z.of_nat (length before + S (length after)))); [|lia].
  rewrite Nat2Z.id, firstn_length_app, skipn_past_app. reflexivity.
Qed.

Lemma write_file_opens : forall fname data d,
  opens_for_write (fst (write_file fname data d)) = S (opens_for_write d).
Proof.
  intros fname data d. unfold write_file.
  destruct (media d) as [| |room]; simpl; try reflexivity.
  now destruct (Nat.leb (length data) room).
Qed.

(** A write that raises leaves in the file something other than the data. *)
Lemma write_file_raises : forall fname data d e,
  snd (write_file fname data d) = Raise e ->
  dict_get fname (files (fst (write_file fname data d))) = dict_get fname (files d)
  \/ exists shorter, dict_get fname (files (fst (write_file fname data d))) = Some shorter
                     /\ length shorter < length data.
Proof.
  intros fname data d e. unfold write_file.
  destruct (media d) as [| |room]; simpl.
  - discriminate.
  - intros _. now left.
  - destruct (Nat.leb_spec (length data) room); simpl; [discriminate|].
    intros _. right. exists (firstn room data). split.
    + apply dict_get_set_same.
    + rewrite length_firstn. lia.
Qed.

Lemma writerow_length : forall fs, 2 <= length (writerow fs).
Proof.
  intro fs. unfold writerow.
  destruct fs as [|f fs]; [simpl; lia|].
  destruct (join_fields (f :: fs)); simpl; [lia|].
  rewrite length_app. simpl. lia.
Qed.

Section SavingFacts.
Context {A : Type} `{Amount A}.

Lemma csv_text_app : forall l1 l2 : list (Transaction A),
  csv_text (l1 ++ l2) = csv_text l1 ++ concat (map (fun t => writerow (csv_record t)) l2).
Proof.
  intros l1 l2. unfold csv_text.
  now rewrite map_app, concat_app, app_assoc.
Qed.

Lemma csv_text_grows : forall (before after : list (Transaction A)) (t : Transaction A),
  length (csv_text (before ++ after)) < length (csv_text (before ++ t :: after)).
Proof.
  intros before after t. rewrite !csv_text_app. cbn [map concat].
  rewrite !length_app. pose proof (writerow_length (csv_record t)). lia.
Qed.

Lemma save_to_file_opens : forall (m : FinanceManager A) d,
  opens_for_write (fst (save_to_file m d)) = S (opens_for_write d).
Proof. intros m d. apply write_file_opens. Qed.

(** After a save that raises, the file does not hold the text of the ledger,
    provided it held the text of a ledger of another length before. *)
Lemma save_raises_diverges : forall (m : FinanceManager A) d e (old : list (Transaction A)),
  snd (save_to_file m d) = Raise e ->
  dict_get (filename m) (files d) = Some (csv_text old) ->
  length (csv_text old) <> length (csv_text (transactions m)) ->
  dict_get (filename m) (files (fst (save_to_file m d))) <> Some (csv_text (transactions m)).
Proof.
  intros m d e old R F L. unfold save_to_file in *.
  destruct (write_file_raises _ _ _ _ R) as [E | [shorter [E S]]]; rewrite E.
  - rewrite F. intro Q. apply L. congruence.
  - intro Q. assert (L' : length shorter = length (csv_text (transactions m))) by congruence.
    lia.
Qed.

End SavingFacts.

(** ** Category summary *)

Lemma dict_get_keys : forall {V} k (d : dict V),
  In k (dict_keys d) <-> dict_get k d <> None.
Proof.
  intros V k d. unfold dict_keys. induction d as [|[k0 v0] d IH]; simpl.
  - split; [intros [] | intro N; now apply N].
  - destruct (text_eqb k0 k) eqn:E.
    + apply text_eqb_eq in E. split; [discriminate | now left].
    + apply text_eqb_neq in E. rewrite <- IH. split; [intros [F|F]|]; tauto.
Qed.

Section SummaryFacts.
Context {A : Type} `{Amount A}.

Lemma summary_step_get_same : forall (summary : dict A) (t : Transaction A),
  dict_get (name (category t)) (summary_step summary t) =
  Some (signed_step (match dict_get (name (category t)) summary with
                     | Some v => v
                     | None => amt_zero
                     end) t).
Proof.
  intros summary t. unfold summary_step, dict_mem, signed_step.
  destruct (dict_get (name (category t)) summary) eqn:G.
  - rewrite G. destruct (type (category t)); simpl; apply dict_get_set_same.
  - rewrite dict_get_set_same.
    destruct (type (category t)); simpl; apply dict_get_set_same.
Qed.

Lemma summary_step_get_other : forall (summary : dict A) (t : Transaction A) n,
  name (category t) <> n ->
  dict_get n (summary_step summary t) = dict_get n summary.
Proof.
  intros summary t n N. unfold summary_step, dict_mem.
  destruct (dict_get (name (category t)) summary) eqn:G.
  - rewrite G. destruct (TransactionType_eqb _ _); now apply dict_get_set_other.
  - rewrite dict_get_set_same.
    destruct (TransactionType_eqb _ _); now rewrite !dict_get_set_other.
Qed.

(** The entry for [n] after the loop has run over [txs] from [summary]. *)
Lemma summary_fold_get : forall n (txs : list (Transaction A)) (summary : dict A),
  dict_get n (fold_left summary_step txs summary) =
  match of_category n txs with
  | [] => dict_get n summary
  | l => Some (fold_left signed_step l (match dict_get n summary with
                                        | Some v => v
                                        | None => amt_zero
                                        end))
  end.
Proof.
  intros n txs. unfold of_category.
  induction txs as [|t txs IH]; intro summary; simpl.
  - reflexivity.
  - rewrite IH. destruct (text_eqb (name (category t)) n) eqn:E.
    + apply text_eqb_eq in E. subst n.
      rewrite summary_step_get_same. simpl.
      now destruct (filter _ txs).
    + apply text_eqb_neq in E.
      now rewrite (summary_step_get_other _ _ _ E).
Qed.

End SummaryFacts.

(** ** The catalog *)

Section CatalogFacts.
Context {A : Type} `{Amount A}.

Lemma load_from_file_categories : forall (m : FinanceManager A) d,
  categories (fst (load_from_file m d)) = categories m.
Proof.
  intros m d. unfold load_from_file.
  destruct (read_file (filename m) d) as [content|[]]; try reflexivity.
  destruct (dict_reader _) as [rows re].
  destruct (load_rows _ _ _) as [txs le]. reflexivity.
Qed.

Lemma add_transaction_categories : forall t (m : FinanceManager A) d,
  categories (fst (fst (add_transaction t m d))) = categories m.
Proof.
  intros t m d. unfold add_transaction.
  destruct (save_to_file _ d). reflexivity.
Qed.

Lemma delete_transaction_categories : forall index (m : FinanceManager A) d,
  categories (fst (fst (delete_transaction index m d))) = categories m.
Proof.
  intros index m d. unfold delete_transaction.
  destruct (_ && _)%bool; [|reflexivity].
  destruct (list_del index (transactions m)); [|reflexivity].
  destruct (save_to_file _ d). reflexivity.
Qed.

End CatalogFacts.

(** ** Loading *)

Section LoadingFacts.
Context {A : Type} `{Amount A}.

(** A row whose Category entry equals no name of the catalog selects no
    category. *)
Lemma next_category_unmatched : forall (cats : list Category) (r : row) v,
  dict_get (utf8 "Category") r = Some v ->
  (forall cat, In cat cats -> v <> Some (name cat)) ->
  next_category cats r = Ok None.
Proof.
  intros cats r v G. induction cats as [|cat cats IH]; intro U; cbn [next_category].
  - reflexivity.
  - rewrite G.
    destruct (value_eqb (Some (name cat)) v) eqn:E.
    + exfalso. apply (U cat); [now left|].
      destruct v as [s|]; simpl in E; [|discriminate].
      apply text_eqb_eq in E. now subst s.
    + apply IH. intros c I. apply U. now right.
Qed.

Lemma load_rows_app : forall cats (rows1 rows2 : list row) (txs : list (Transaction A)),
  load_rows cats (rows1 ++ rows2) txs =
  match load_rows cats rows1 txs with
  | (txs1, None) => load_rows cats rows2 txs1
  | (txs1, Some e) => (txs1, Some e)
  end.
Proof.
  intros cats rows1 rows2. induction rows1 as [|r rows1 IH]; intro txs; simpl.
  - reflexivity.
  - destruct (load_row cats r) as [[t|]|e]; [apply IH | apply IH | reflexivity].
Qed.

(** The Type entry of a row plays no part in what is loaded from it. *)
Lemma load_row_ignores_type : forall cats (r : row) v,
  load_row (A:=A) cats (dict_set (utf8 "Type") v r) = load_row cats r.
Proof.
  intros cats r v.
  assert (G : forall k, k <> utf8 "Type" ->
                        dict_get k (dict_set (utf8 "Type") v r) = dict_get k r).
  { intros k N. apply dict_get_set_other. congruence. }
  assert (C : next_category cats (dict_set (utf8 "Type") v r) = next_category cats r).
  { induction cats as [|cat cats IH]; simpl; [reflexivity|].
    rewrite G by (vm_compute; discriminate). now rewrite IH. }
  unfold load_row. rewrite C.
  rewrite !G by (vm_compute; discriminate). reflexivity.
Qed.

(** A row without a Description key (the header has no such column) is
    loaded with the empty description. *)
Lemma load_row_without_description_key : forall cats (r : row) (t : Transaction A),
  dict_get (utf8 "Description") r = None ->
  load_row cats r = Ok (Some t) ->
  description t = Some [].
Proof.
  intros cats r t D. unfold load_row. rewrite D.
  destruct (next_category cats r) as [[cat|]|]; try discriminate.
  destruct (dict_get (utf8 "Amount") r) as [[s|]|]; try discriminate.
  destruct (amt_float s); try discriminate.
  destruct (dict_get (utf8 "Date") r); try discriminate.
  intro E. injection E as <-. reflexivity.
Qed.

End LoadingFacts.

(** ** Lines and the reader *)

Lemma split_lines_line : forall l rest,
  ~ In LF l -> split_lines (l ++ LF :: rest) = (l ++ [LF]) :: split_lines rest.
Proof.
  induction l as [|c l IH]; intros rest N; simpl.
  - reflexivity.
  - destruct (N.eqb_spec c LF) as [E|E].
    + exfalso. apply N. now left.
    + rewrite IH; [reflexivity|]. intro I. apply N. now right.
Qed.

Lemma whole_lines_end : forall s l, ~ In LF l -> whole_lines (l ++ s ++ [LF]).
Proof.
  induction s as [|c s IH]; intros l N; simpl.
  - apply whole_lines_cons; [exact N | constructor].
  - destruct (N.eqb_spec c LF) as [E|E].
    + subst c. apply whole_lines_cons; [exact N|].
      apply (IH []). intros [].
    + change (l ++ c :: s ++ [LF]) with (l ++ [c] ++ s ++ [LF]).
      rewrite app_assoc. apply IH.
      intro I. apply in_app_or in I. destruct I as [I|[I|[]]]; [now apply N | congruence].
Qed.

Lemma whole_lines_app : forall a b, whole_lines a -> whole_lines b -> whole_lines (a ++ b).
Proof.
  intros a b Wa Wb. induction Wa as [|l rest N W IH]; simpl.
  - exact Wb.
  - rewrite <- app_assoc. simpl. now apply whole_lines_cons.
Qed.

Lemma scan_line : forall l rest p,
  ~ In LF l ->
  scan p (l ++ LF :: rest) =
  match feed_line p (l ++ [LF]) with
  | Raise e => ([], Some e)
  | Ok p' =>
      if pstate_eqb (state p') START_RECORD
      then let (recs, e) := scan parse_reset rest in (fields p' :: recs, e)
      else scan p' rest
  end.
Proof.
  induction l as [|c l IH]; intros rest p N; simpl.
  - destruct (parse_process_char p (Ch LF)) as [p1|e]; [|reflexivity].
    reflexivity.
  - destruct (parse_process_char p (Ch c)) as [p1|e]; [|reflexivity].
    destruct (N.eqb_spec c LF) as [E|E].
    + exfalso. apply N. now left.
    + apply IH. intro I. apply N. now right.
Qed.

Lemma reader_records_scan : forall s,
  whole_lines s -> forall p, reader_records p (split_lines s) = scan p s.
Proof.
  induction 1 as [|l rest N W IH]; intro p.
  - reflexivity.
  - rewrite (split_lines_line _ _ N), (scan_line _ _ _ N).
    cbn [reader_records].
    destruct (feed_line p (l ++ [LF])) as [p'|e]; [|reflexivity].
    rewrite !IH. reflexivity.
Qed.

(** ** The reader on what the writer wrote *)

Lemma fits_app_cons : forall b c f,
  fits (b ++ c :: f) = true ->
  (N.of_nat (length b) < field_limit)%N /\ fits ((b ++ [c]) ++ f) = true.
Proof.
  intros b c f F. split.
  - unfold fits in F. apply N.leb_le in F. rewrite length_app in F. simpl in F. lia.
  - now rewrite <- app_assoc.
Qed.

Lemma parse_add_char_fits : forall st b fs c,
  (N.of_nat (length b) < field_limit)%N ->
  parse_add_char (mkParser st b fs) c = Ok (mkParser st (b ++ [c]) fs).
Proof.
  intros st b fs c L. unfold parse_add_char. simpl.
  destruct (N.leb_spec field_limit (N.of_nat (length b))); [lia | reflexivity].
Qed.

Lemma special_false : forall c,
  special c = false -> c <> COMMA /\ c <> QUOTE /\ c <> CR /\ c <> LF.
Proof.
  intros c S. unfold special in S.
  repeat (apply orb_false_iff in S; destruct S as [S ?]).
  repeat split; apply N.eqb_neq; assumption.
Qed.

Lemma scan_in_quoted_char : forall c b fs r,
  c <> QUOTE -> (N.of_nat (length b) < field_limit)%N ->
  scan (mkParser IN_QUOTED_FIELD b fs) (c :: r) = scan (mkParser IN_QUOTED_FIELD (b ++ [c]) fs) r.
Proof.
  intros c b fs r Q L. cbn [scan parse_process_char state].
  apply N.eqb_neq in Q. rewrite Q.
  rewrite (parse_add_char_fits _ _ _ _ L).
  destruct (N.eqb c LF); reflexivity.
Qed.

Lemma scan_in_quoted_quote : forall b fs r,
  scan (mkParser IN_QUOTED_FIELD b fs) (QUOTE :: r) = scan (mkParser QUOTE_IN_QUOTED_FIELD b fs) r.
Proof. reflexivity. Qed.

Lemma scan_after_quote_quote : forall b fs r,
  (N.of_nat (length b) < field_limit)%N ->
  scan (mkParser QUOTE_IN_QUOTED_FIELD b fs) (QUOTE :: r)
  = scan (mkParser IN_QUOTED_FIELD (b ++ [QUOTE]) fs) r.
Proof.
  intros b fs r L. cbn [scan parse_process_char state].
  change (N.eqb QUOTE QUOTE) with true. cbv iota.
  rewrite (parse_add_char_fits _ _ _ _ L). reflexivity.
Qed.

Lemma scan_after_quote_comma : forall b fs r,
  scan (mkParser QUOTE_IN_QUOTED_FIELD b fs) (COMMA :: r)
  = scan (mkParser START_FIELD [] (fs ++ [b])) r.
Proof. reflexivity. Qed.

Lemma scan_after_quote_end : forall b fs r,
  scan (mkParser QUOTE_IN_QUOTED_FIELD b fs) (LF :: r)
  = let (recs, e) := scan parse_reset r in ((fs ++ [b]) :: recs, e).
Proof. reflexivity. Qed.

(** The body of a quoted field and its closing quote. *)
Lemma scan_quoted : forall f b fs rest,
  fits (b ++ f) = true ->
  scan (mkParser IN_QUOTED_FIELD b fs) (double_quotes f ++ QUOTE :: rest)
  = scan (mkParser QUOTE_IN_QUOTED_FIELD (b ++ f) fs) rest.
Proof.
  induction f as [|c f IH]; intros b fs rest F.
  - rewrite app_nil_r. reflexivity.
  - destruct (fits_app_cons _ _ _ F) as [L F'].
    replace (b ++ c :: f) with ((b ++ [c]) ++ f) by now rewrite <- app_assoc.
    cbn [double_quotes]. destruct (N.eqb_spec c QUOTE) as [E|E].
    + subst c. cbn [app].
      rewrite scan_in_quoted_quote, (scan_after_quote_quote _ _ _ L).
      now apply IH.
    + cbn [app]. rewrite (scan_in_quoted_char _ _ _ _ E L). now apply IH.
Qed.

Lemma is_newline_plain : forall c, special c = false -> is_newline c = false.
Proof.
  intros c S. destruct (special_false c S) as [_ [_ [R N]]].
  apply N.eqb_neq in R, N. unfold is_newline. now rewrite N, R.
Qed.

Lemma scan_in_field_char : forall c b fs r,
  special c = false -> (N.of_nat (length b) < field_limit)%N ->
  scan (mkParser IN_FIELD b fs) (c :: r) = scan (mkParser IN_FIELD (b ++ [c]) fs) r.
Proof.
  intros c b fs r S L.
  destruct (special_false c S) as [C [Q [R N]]].
  apply N.eqb_neq in C, N.
  cbn [scan parse_process_char state ends_line].
  rewrite (is_newline_plain c S), C, N.
  rewrite (parse_add_char_fits _ _ _ _ L). reflexivity.
Qed.

Lemma scan_in_field_comma : forall b fs r,
  scan (mkParser IN_FIELD b fs) (COMMA :: r) = scan (mkParser START_FIELD [] (fs ++ [b])) r.
Proof. reflexivity. Qed.

Lemma scan_in_field_end : forall b fs r,
  scan (mkParser IN_FIELD b fs) (LF :: r)
  = let (recs, e) := scan parse_reset r in ((fs ++ [b]) :: recs, e).
Proof. reflexivity. Qed.

(** The rest of an unquoted field. *)
Lemma scan_plain : forall f b fs rest,
  needs_quotes f = false -> fits (b ++ f) = true ->
  scan (mkParser IN_FIELD b fs) (f ++ rest) = scan (mkParser IN_FIELD (b ++ f) fs) rest.
Proof.
  unfold needs_quotes.
  induction f as [|c f IH]; intros b fs rest P F.
  - rewrite app_nil_r. reflexivity.
  - destruct (fits_app_cons _ _ _ F) as [L F'].
    replace (b ++ c :: f) with ((b ++ [c]) ++ f) by now rewrite <- app_assoc.
    cbn [existsb] in P. apply orb_false_iff in P. destruct P as [S P].
    cbn [app]. rewrite (scan_in_field_char _ _ _ _ S L). now apply IH.
Qed.

Lemma scan_start_quote : forall st fs r,
  expects_field st ->
  scan (mkParser st [] fs) (QUOTE :: r) = scan (mkParser IN_QUOTED_FIELD [] fs) r.
Proof. intros st fs r [-> | ->]; reflexivity. Qed.

Lemma scan_start_comma : forall st fs r,
  expects_field st ->
  scan (mkParser st [] fs) (COMMA :: r) = scan (mkParser START_FIELD [] (fs ++ [[]])) r.
Proof. intros st fs r [-> | ->]; reflexivity. Qed.

Lemma scan_start_char : forall st c fs r,
  expects_field st -> special c = false ->
  scan (mkParser st [] fs) (c :: r) = scan (mkParser IN_FIELD [c] fs) r.
Proof.
  intros st c fs r E S.
  destruct (special_false c S) as [C [Q [R N]]].
  apply N.eqb_neq in C, Q, N.
  assert (P : start_field (mkParser START_FIELD [] fs) (Ch c) = Ok (mkParser IN_FIELD [c] fs)).
  { unfold start_field. cbn [ends_line]. rewrite (is_newline_plain c S), Q, C.
    rewrite parse_add_char_fits by (vm_compute; reflexivity). reflexivity. }
  destruct E as [-> | ->]; cbn [scan parse_process_char state].
  - rewrite (is_newline_plain c S).
    change (set_state START_FIELD (mkParser START_RECORD [] fs))
      with (mkParser START_FIELD [] fs).
    now rewrite P, N.
  - now rewrite P, N.
Qed.

Lemma scan_start_end : forall fs r,
  scan (mkParser START_FIELD [] fs) (LF :: r)
  = let (recs, e) := scan parse_reset r in ((fs ++ [[]]) :: recs, e).
Proof. reflexivity. Qed.

(** A field followed by the delimiter. *)
Lemma scan_field_comma : forall st f fs rest,
  expects_field st -> fits f = true ->
  scan (mkParser st [] fs) (join_append f ++ COMMA :: rest)
  = scan (mkParser START_FIELD [] (fs ++ [f])) rest.
Proof.
  intros st f fs rest E F. unfold join_append.
  destruct (needs_quotes f) eqn:Q.
  - cbn [app]. rewrite (scan_start_quote _ _ _ E).
    rewrite <- app_assoc. cbn [app].
    rewrite (scan_quoted f [] fs) by exact F. reflexivity.
  - destruct f as [|c f].
    + cbn [app]. now apply scan_start_comma.
    + unfold needs_quotes in Q. pose proof Q as Q'.
      cbn [existsb] in Q'. apply orb_false_iff in Q'. destruct Q' as [S P].
      cbn [app]. rewrite (scan_start_char _ _ _ _ E S).
      rewrite (scan_plain f [c] fs) by assumption. reflexivity.
Qed.

(** The last field of a record and the end of the line. *)
Lemma scan_field_end : forall f fs rest,
  fits f = true ->
  scan (mkParser START_FIELD [] fs) (join_append f ++ LF :: rest)
  = let (recs, e) := scan parse_reset rest in ((fs ++ [f]) :: recs, e).
Proof.
  intros f fs rest F. unfold join_append.
  destruct (needs_quotes f) eqn:Q.
  - cbn [app]. rewrite (scan_start_quote START_FIELD) by now right.
    rewrite <- app_assoc. cbn [app].
    rewrite (scan_quoted f [] fs) by exact F. reflexivity.
  - destruct f as [|c f].
    + reflexivity.
    + unfold needs_quotes in Q. pose proof Q as Q'.
      cbn [existsb] in Q'. apply orb_false_iff in Q'. destruct Q' as [S P].
      cbn [app]. rewrite (scan_start_char START_FIELD) by (now right || assumption).
      rewrite (scan_plain f [c] fs) by assumption. reflexivity.
Qed.

(** A record in progress: the remaining fields and the end of the line. *)
Lemma scan_fields : forall fs done rest,
  fs <> [] -> forallb fits fs = true ->
  scan (mkParser START_FIELD [] done) (join_fields fs ++ LF :: rest)
  = let (recs, e) := scan parse_reset rest in ((done ++ fs) :: recs, e).
Proof.
  induction fs as [|f fs IH]; intros done rest N F; [contradiction|].
  cbn [forallb] in F. apply andb_true_iff in F. destruct F as [Ff F].
  destruct fs as [|g fs].
  - cbn [join_fields]. now apply scan_field_end.
  - change (join_fields (f :: g :: fs)) with (join_append f ++ COMMA :: join_fields (g :: fs)).
    rewrite <- app_assoc. cbn [app].
    rewrite (scan_field_comma START_FIELD) by (now right || assumption).
    rewrite IH by (discriminate || assumption).
    now rewrite <- app_assoc.
Qed.

(** A whole record of two fields or more, from the start of a line. *)
Lemma scan_record : forall f g fs rest,
  forallb fits (f :: g :: fs) = true ->
  scan parse_reset (join_fields (f :: g :: fs) ++ LF :: rest)
  = let (recs, e) := scan parse_reset rest in ((f :: g :: fs) :: recs, e).
Proof.
  intros f g fs rest F.
  change (join_fields (f :: g :: fs)) with (join_append f ++ COMMA :: join_fields (g :: fs)).
  cbn [forallb] in F. apply andb_true_iff in F. destruct F as [Ff F].
  rewrite <- app_assoc. cbn [app]. unfold parse_reset.
  rewrite (scan_field_comma START_RECORD) by (now left || assumption).
  rewrite scan_fields by (discriminate || assumption). reflexivity.
Qed.

(** ** Universal newlines on what the writer wrote *)

Lemma cr_free_app : forall a b, cr_free (a ++ b) = cr_free a && cr_free b.
Proof. intros a b. unfold cr_free. apply forallb_app. Qed.

Lemma universal_newlines_cr_free : forall a r,
  cr_free a = true -> universal_newlines (a ++ r) = a ++ universal_newlines r.
Proof.
  induction a as [|c a IH]; intros r F.
  - reflexivity.
  - cbn [cr_free forallb] in F. apply andb_true_iff in F. destruct F as [C F].
    cbn [app universal_newlines].
    apply negb_true_iff in C. rewrite C. f_equal. now apply IH.
Qed.

Lemma double_quotes_cr_free : forall s, cr_free s = true -> cr_free (double_quotes s) = true.
Proof.
  induction s as [|c s IH]; intro F; [reflexivity|].
  cbn [cr_free forallb] in F. apply andb_true_iff in F. destruct F as [C F].
  cbn [double_quotes]. destruct (N.eqb_spec c QUOTE) as [E|E].
  - subst c. cbn [cr_free forallb]. apply IH in F. unfold cr_free in F. now rewrite F.
  - cbn [cr_free forallb]. rewrite C. now apply IH.
Qed.

Lemma join_append_cr_free : forall s, cr_free s = true -> cr_free (join_append s) = true.
Proof.
  intros s F. unfold join_append. destruct (needs_quotes s); [|exact F].
  change (QUOTE :: double_quotes s ++ [QUOTE]) with ([QUOTE] ++ double_quotes s ++ [QUOTE]).
  rewrite !cr_free_app, (double_quotes_cr_free s F). reflexivity.
Qed.

Lemma join_fields_cr_free : forall fs,
  forallb cr_free fs = true -> cr_free (join_fields fs) = true.
Proof.
  induction fs as [|f fs IH]; intro F; [reflexivity|].
  cbn [forallb] in F. apply andb_true_iff in F. destruct F as [Ff F].
  destruct fs as [|g fs].
  - now apply join_append_cr_free.
  - change (join_fields (f :: g :: fs)) with (join_append f ++ [COMMA] ++ join_fields (g :: fs)).
    rewrite !cr_free_app, (join_append_cr_free f Ff), (IH F). reflexivity.
Qed.

Lemma writerow_fields : forall f g fs,
  writerow (f :: g :: fs) = join_fields (f :: g :: fs) ++ [CR; LF].
Proof.
  intros f g fs. unfold writerow.
  destruct (join_fields (f :: g :: fs)) eqn:J; [|reflexivity].
  exfalso.
  change (join_fields (f :: g :: fs)) with (join_append f ++ COMMA :: join_fields (g :: fs)) in J.
  now destruct (join_append f).
Qed.

Lemma readable_inv : forall fs,
  readable fs = true ->
  exists f g r, fs = f :: g :: r
                /\ forallb cr_free (f :: g :: r) = true /\ forallb fits (f :: g :: r) = true.
Proof.
  intros fs R. unfold readable in R.
  apply andb_true_iff in R. destruct R as [R F].
  apply andb_true_iff in R. destruct R as [L C].
  destruct fs as [|f [|g r]]; try discriminate.
  now exists f, g, r.
Qed.

Lemma universal_newlines_records : forall records,
  forallb readable records = true ->
  universal_newlines (concat (map writerow records)) = as_read records.
Proof.
  induction records as [|fs records IH]; intro R; [reflexivity|].
  cbn [forallb] in R. apply andb_true_iff in R. destruct R as [Rf R].
  destruct (readable_inv fs Rf) as [f [g [r [-> [C F]]]]].
  unfold as_read. cbn [map concat]. rewrite writerow_fields, <- !app_assoc.
  rewrite (universal_newlines_cr_free _ _ (join_fields_cr_free _ C)).
  cbn [app universal_newlines]. change (N.eqb CR CR) with true.
  change (N.eqb LF LF) with true. cbv iota.
  f_equal. f_equal. now apply IH.
Qed.

Lemma whole_lines_as_read : forall records, whole_lines (as_read records).
Proof.
  induction records as [|fs records IH]; [constructor|].
  unfold as_read. cbn [map concat]. apply whole_lines_app; [|exact IH].
  apply (whole_lines_end (join_fields fs) []). intros [].
Qed.

Lemma scan_as_read : forall records,
  forallb readable records = true -> scan parse_reset (as_read records) = (records, None).
Proof.
  induction records as [|fs records IH]; intro R; [reflexivity|].
  cbn [forallb] in R. apply andb_true_iff in R. destruct R as [Rf R].
  destruct (readable_inv fs Rf) as [f [g [r [-> [C F]]]]].
  unfold as_read. cbn [map concat]. rewrite <- app_assoc. cbn [app].
  rewrite (scan_record f g r _ F).
  change (concat (map (fun fs => join_fields fs ++ [LF]) records)) with (as_read records).
  now rewrite (IH R).
Qed.

(** What [csv.reader] yields on the file [csv.writer] wrote. *)
Lemma csv_reader_written : forall records,
  forallb readable records = true ->
  csv_reader (file_lines (concat (map writerow records))) = (records, None).
Proof.
  intros records R. unfold csv_reader, file_lines.
  rewrite (universal_newlines_records records R).
  rewrite (reader_records_scan _ (whole_lines_as_read records)).
  now apply scan_as_read.
Qed.

(** ** Saving, then loading *)

Lemma write_file_ok : forall fname data d,
  snd (write_file fname data d) = Ok tt ->
  dict_get fname (files (fst (write_file fname data d))) = Some data.
Proof.
  intros fname data d. unfold write_file.
  destruct (media d) as [| |room]; simpl.
  - intros _. apply dict_get_set_same.
  - discriminate.
  - destruct (Nat.leb (length data) room); simpl; [|discriminate].
    intros _. apply dict_get_set_same.
Qed.

Lemma make_row_record : forall a b c d e : text,
  make_row csv_header [a; b; c; d; e] []
  = [ (utf8 "Amount", Some a); (utf8 "Category", Some b); (utf8 "Type", Some c);
      (utf8 "Date", Some d); (utf8 "Description", Some e) ].
Proof. reflexivity. Qed.

Lemma next_category_preset : forall (cat : Category) (r : row),
  In cat preset_categories ->
  dict_get (utf8 "Category") r = Some (Some (name cat)) ->
  next_category preset_categories r = Ok (Some cat).
Proof.
  intros cat r I G. unfold preset_categories in *. cbn [next_category]. rewrite G.
  cbn [In] in I.
  destruct I as [<-|[<-|[<-|[<-|[<-|[]]]]]]; reflexivity.
Qed.

Lemma preset_names_readable : forall cat,
  In cat preset_categories ->
  cr_free (name cat) && fits (name cat) = true
  /\ cr_free (TransactionType_value (type cat)) && fits (TransactionType_value (type cat)) = true.
Proof.
  intros cat I. unfold preset_categories in I. cbn [In] in I.
  destruct I as [<-|[<-|[<-|[<-|[<-|[]]]]]]; split; vm_compute; reflexivity.
Qed.

Section RoundTrip.
Context {A : Type} `{Amount A}.

Lemma storable_readable : forall t, storable t -> readable (csv_record t) = true.
Proof.
  intros [a cat dt ds] (I & _ & Pa & (s1 & E1 & P1) & (s2 & E2 & P2)).
  simpl in *. subst dt ds.
  destruct (preset_names_readable cat I) as [Pn Pt].
  unfold plain in *.
  apply andb_true_iff in Pa, P1, P2, Pn, Pt.
  destruct Pa as [Ca Fa], P1 as [C1 F1], P2 as [C2 F2], Pn as [Cn Fn], Pt as [Ct Ft].
  unfold readable, csv_record. cbn [amount category date description field_text forallb length].
  rewrite Ca, Fa, C1, F1, C2, F2, Cn, Fn, Ct, Ft. reflexivity.
Qed.

Lemma load_row_record : forall t,
  storable t ->
  load_row preset_categories (make_row csv_header (csv_record t) []) = Ok (Some t).
Proof.
  intros [a cat dt ds] (I & Fa & _ & (s1 & E1 & _) & (s2 & E2 & _)).
  simpl in I, Fa, E1, E2. subst dt ds.
  unfold csv_record. cbn [amount category date description field_text].
  rewrite make_row_record. unfold load_row.
  rewrite (next_category_preset cat _ I) by reflexivity.
  change (dict_get (utf8 "Amount") _) with (Some (Some (amt_str a))).
  cbv iota. rewrite Fa. reflexivity.
Qed.

Lemma load_rows_records : forall (txs acc : list (Transaction A)),
  Forall storable txs ->
  load_rows preset_categories (map (fun t => make_row csv_header (csv_record t) []) txs) acc
  = (acc ++ txs, None).
Proof.
  induction txs as [|t txs IH]; intros acc S.
  - now rewrite app_nil_r.
  - inversion S as [|? ? St S']; subst.
    cbn [map load_rows]. rewrite (load_row_record t St).
    rewrite (IH _ S'), <- app_assoc. reflexivity.
Qed.

Lemma csv_text_records : forall txs : list (Transaction A),
  csv_text txs = concat (map writerow (csv_header :: map csv_record txs)).
Proof. intro txs. unfold csv_text. cbn [map concat]. now rewrite map_map. Qed.

Lemma records_readable : forall txs : list (Transaction A),
  Forall storable txs -> forallb readable (csv_header :: map csv_record txs) = true.
Proof.
  intros txs S. cbn [forallb].
  replace (readable csv_header) with true by (vm_compute; reflexivity).
  induction S as [|t txs St S IH]; [reflexivity|].
  cbn [map forallb]. rewrite (storable_readable t St). exact IH.
Qed.

Lemma dict_reader_records : forall (txs : list (Transaction A)) e,
  dict_reader (csv_header :: map csv_record txs, e)
  = (map (fun t => make_row csv_header (csv_record t) []) txs, e).
Proof.
  intros txs e. unfold dict_reader. f_equal.
  induction txs as [|t txs IH]; [reflexivity|].
  cbn [map filter is_blank negb csv_record]. now rewrite IH.
Qed.

(** A ledger of storable transactions, once saved, is what a fresh store
    constructed on the file holds. *)
Theorem save_then_load_restores : forall (m : FinanceManager A) (d : disk),
  categories m = preset_categories ->
  Forall storable (transactions m) ->
  snd (save_to_file m d) = Ok tt ->
  new_manager (filename m) (fst (save_to_file m d)) = Ok m.
Proof.
  intros [fname txs cats] d C S W. simpl in C, S. subst cats.
  unfold save_to_file in *. cbn [filename transactions] in *.
  unfold new_manager, load_from_file, read_file. cbn [filename transactions categories].
  rewrite (write_file_ok _ _ _ W).
  rewrite csv_text_records, (csv_reader_written _ (records_readable txs S)).
  rewrite dict_reader_records, (load_rows_records txs [] S).
  reflexivity.
Qed.

End RoundTrip.

Lemma save_then_load_restores_witness :
  new_manager default_filename (fst (save_to_file quoting_manager empty_disk))
  = Ok quoting_manager.
Proof.
  apply (save_then_load_restores quoting_manager empty_disk).
  - reflexivity.
  - repeat constructor; eexists; split; reflexivity.
  - reflexivity.
Defined.

(* ================================================================== *)
(** * The claims *)

(** C1, at a ledger whose one transaction has a carriage return in its
    description: after saving and constructing a fresh store on the file, the
    description holds a line feed instead. *)
Theorem carriage_return_not_restored :
  new_manager (A:=Z) default_filename
    (fst (save_to_file
            (mkFinanceManager default_filename [transaction_with_cr] preset_categories)
            empty_disk))
  = Ok (mkFinanceManager default_filename [transaction_with_lf] preset_categories)
  /\ transaction_with_lf <> transaction_with_cr.
Proof. split; [vm_compute; reflexivity | vm_compute; discriminate]. Qed.



(** C3. For every sequence of transactions held by the store and every
    category name, [get_category_summary] maps the name to the signed sum of
    the amounts of its transactions (added for an income, subtracted for an
    expense), and a name with no transaction is not a key of the result. *)
Theorem get_category_summary_correct :
  forall {A : Type} `{Amount A} (m : FinanceManager A) (n : text),
  dict_get n (get_category_summary m) = summary_spec n (transactions m)
  /\ (In n (dict_keys (get_category_summary m)) <-> of_category n (transactions m) <> []).
Proof.
  intros A HA m n.
  assert (G : dict_get n (get_category_summary m) = summary_spec n (transactions m)).
  { unfold get_category_summary, summary_spec, signed_sum.
    rewrite summary_fold_get. reflexivity. }
  split; [exact G|].
  rewrite dict_get_keys, G. unfold summary_spec.
  destruct (of_category n (transactions m)); split; intro N; congruence.
Qed.






(** C6. Constructing a store against a backing file that does not exist
    raises nothing and yields a store with no transaction, whose balance
    is zero. *)
Theorem new_manager_without_file :
  forall {A : Type} `{Amount A} (fname : text) (d : disk),
  dict_get fname (files d) = None ->
  new_manager fname d = Ok (mkFinanceManager fname [] preset_categories)
  /\ get_balance (mkFinanceManager (A:=A) fname [] preset_categories) = amt_zero.
Proof.
  intros A HA fname d F. split.
  - unfold new_manager, load_from_file, read_file. simpl. rewrite F. reflexivity.
  - unfold get_balance. simpl. apply amt_sub_zero_zero.
Qed.

Lemma new_manager_without_file_witness :
  new_manager default_filename empty_disk
    = Ok (mkFinanceManager (A:=Z) default_filename [] preset_categories)
  /\ get_balance (mkFinanceManager (A:=Z) default_filename [] preset_categories) = 0%Z.
Proof.
  exact (new_manager_without_file (A:=Z) default_filename empty_disk eq_refl).
Defined.

(** C7. When the write of the backing file raises during [add_transaction] or
    [delete_transaction], the error reaches the caller, the file was opened
    for writing once (no retry), the store keeps the appended or shortened
    ledger, and a file that agreed with the ledger before the call no longer
    holds the text of the ledger. *)
Theorem write_failure_keeps_mutation :
  forall {A : Type} `{Amount A} (m : FinanceManager A) (d : disk) (e : exn),
  (forall t : Transaction A,
     snd (save_to_file (set_transactions m (transactions m ++ [t])) d) = Raise e ->
     exists d',
       add_transaction t m d = (set_transactions m (transactions m ++ [t]), d', Raise e)
       /\ opens_for_write d' = S (opens_for_write d)
       /\ (dict_get (filename m) (files d) = Some (csv_text (transactions m)) ->
           dict_get (filename m) (files d') <> Some (csv_text (transactions m ++ [t]))))
  /\ (forall before t after,
        transactions m = before ++ t :: after ->
        snd (save_to_file (set_transactions m (before ++ after)) d) = Raise e ->
        exists d',
          delete_transaction (Z.of_nat (length before)) m d
            = (set_transactions m (before ++ after), d', Raise e)
          /\ opens_for_write d' = S (opens_for_write d)
          /\ (dict_get (filename m) (files d) = Some (csv_text (transactions m)) ->
              dict_get (filename m) (files d') <> Some (csv_text (before ++ after)))).
Proof.
  intros A HA m d e. split.
  - intros t R.
    exists (fst (save_to_file (set_transactions m (transactions m ++ [t])) d)).
    split; [|split].
    + unfold add_transaction.
      destruct (save_to_file _ d) as [d' r]. simpl in *. now subst r.
    + apply save_to_file_opens.
    + intro F.
      apply (save_raises_diverges (set_transactions m (transactions m ++ [t])) d e
                                  (transactions m) R F).
      pose proof (csv_text_grows (transactions m) [] t) as G.
      rewrite app_nil_r in G. cbn [transactions set_transactions]. lia.
  - intros before t after E R.
    exists (fst (save_to_file (set_transactions m (before ++ after)) d)).
    split; [|split].
    + unfold delete_transaction. rewrite E at 1. rewrite length_app. simpl length.
      destruct (Z.leb_spec 0 (Z.of_nat (length before))); [|lia].
      destruct (Z.ltb_spec (Z.of_nat (length before))
                           (Z.of_nat (length before + S (length after)))); [|lia].
      simpl. rewrite E at 1. rewrite list_del_in_range.
      destruct (save_to_file _ d) as [d' r]. simpl in *. now subst r.
    + apply save_to_file_opens.
    + intro F.
      apply (save_raises_diverges (set_transactions m (before ++ after)) d e
                                  (transactions m) R F).
      pose proof (csv_text_grows before after t) as G.
      cbn [transactions set_transactions]. rewrite E. lia.
Qed.

Lemma write_failure_keeps_mutation_witness :
  exists d',
    add_transaction sample_expense
      (mkFinanceManager default_filename [sample_income] preset_categories) locked_disk
    = (sample_manager, d', Raise OSError)
    /\ opens_for_write d' = 1.
Proof.
  destruct (proj1 (write_failure_keeps_mutation
                     (mkFinanceManager default_filename [sample_income] preset_categories)
                     locked_disk OSError) sample_expense eq_refl) as [d' [E [O _]]].
  exists d'. split; [exact E | exact O].
Defined.

(** C8, as the specification states it, fails: the five categories of a
    freshly constructed store do not carry the names Salary, Investments,
    Groceries, Transport, Entertainment. *)
Lemma catalog_names_not_english :
  match new_manager (A:=Z) default_filename empty_disk with
  | Ok m => map name (categories m) <> map name catalog_in_english
  | Raise _ => False
  end.
Proof. vm_compute. discriminate. Qed.

(** C8, amended. A freshly constructed store has exactly five categories:
    two incomes named (in Russian) Зарплата and Инвестиции, three expenses
    named Продукты, Транспорт and Развлечения, in this order; and no
    operation of the store adds, removes or renames a category. *)
Theorem catalog_fixed :
  forall {A : Type} `{Amount A} (fname : text) (d : disk) (m : FinanceManager A),
  new_manager fname d = Ok m ->
  categories m =
    [ mkCategory (utf8 "Зарплата") INCOME;
      mkCategory (utf8 "Инвестиции") INCOME;
      mkCategory (utf8 "Продукты") EXPENSE;
      mkCategory (utf8 "Транспорт") EXPENSE;
      mkCategory (utf8 "Развлечения") EXPENSE ]
  /\ length (categories m) = 5
  /\ (forall (m0 : FinanceManager A) t d0,
        categories (fst (fst (add_transaction t m0 d0))) = categories m0)
  /\ (forall (m0 : FinanceManager A) index d0,
        categories (fst (fst (delete_transaction index m0 d0))) = categories m0)
  /\ (forall (m0 : FinanceManager A) d0,
        categories (fst (load_from_file m0 d0)) = categories m0).
Proof.
  intros A HA fname d m N.
  assert (C : categories m = preset_categories).
  { unfold new_manager in N.
    pose proof (load_from_file_categories (mkFinanceManager fname [] preset_categories) d) as P.
    destruct (load_from_file _ d) as [m1 [u|e]]; [|discriminate].
    injection N as <-. exact P. }
  rewrite C. repeat split.
  - intros. apply add_transaction_categories.
  - intros. apply delete_transaction_categories.
  - intros. apply load_from_file_categories.
Qed.

Lemma catalog_fixed_witness :
  categories (mkFinanceManager (A:=Z) default_filename [] preset_categories) =
    [ mkCategory (utf8 "Зарплата") INCOME;
      mkCategory (utf8 "Инвестиции") INCOME;
      mkCategory (utf8 "Продукты") EXPENSE;
      mkCategory (utf8 "Транспорт") EXPENSE;
      mkCategory (utf8 "Развлечения") EXPENSE ].
Proof.
  exact (proj1 (catalog_fixed (A:=Z) default_filename empty_disk _ eq_refl)).
Defined.

(** C9, at a row that stops after the date, under a header that has the
    Description column: the row is loaded, and its description is [None],
    not the empty string. *)
Theorem short_row_description_is_none :
  new_manager (A:=Z) default_filename (disk_with file_with_short_row)
  = Ok (mkFinanceManager default_filename
          [mkTransaction 100%Z salary (Some (utf8 "2024-01-05")) None]
          preset_categories)
  /\ @None text <> Some [].
Proof. split; [vm_compute; reflexivity | discriminate]. Qed.

(** The rest of C9 holds: without a Description column the description is
    the empty string, and the Type column is not consulted. *)
Lemma missing_description_column_is_empty :
  new_manager (A:=Z) default_filename (disk_with file_without_description_column)
  = Ok (mkFinanceManager default_filename
          [mkTransaction 100%Z salary (Some (utf8 "2024-01-05")) (Some [])]
          preset_categories).
Proof. vm_compute. reflexivity. Qed.

Lemma wrong_type_column_is_ignored :
  new_manager (A:=Z) default_filename (disk_with file_with_wrong_type)
  = Ok (mkFinanceManager default_filename
          [mkTransaction 100%Z salary (Some (utf8 "2024-01-05")) (Some (utf8 "pay"))]
          preset_categories).
Proof. vm_compute. reflexivity. Qed.


